(** * lntop: the lnd backend (network/backend/lnd/lnd.go)

  A shallow embedding of the pooled client facade of the lnd backend:
  [Backend.Client], [Client.Close], the seven unary operations and the
  streaming [Backend.SubscribeInvoice].

  The operations talk to collaborators that live outside lnd.go (the
  connection pool, the gRPC stub, the logger, the clock).  What those
  collaborators answer is read from the [Backend] and from a [World]; what
  the operation does to them is written to a trace of [Event]s.  An
  operation is therefore a value of [M A]: its outcome together with the
  events it produced, in program order.

  Conventions.  A Go pair [(v, err)] with exactly one side set is a sum
  [error + A]; an [int64] is a [Z] (lnd.go copies such values and never
  computes with them); a pointer argument that may be nil is an [option].
  A send on the invoice channel is an event: the model follows the run in
  which the consumer takes every message, and says nothing of how long a
  send waits.  [New] and [NewClientConn] only forward to [pool.New] and
  [newClientConn], which are not in lnd.go; they are left out. *)

From Stdlib Require Import ZArith List String Bool Lia DecimalString DecimalNat.
Import ListNotations.

Local Open Scope string_scope.
Local Open Scope Z_scope.

(* ================================================================== *)
(** ** github.com/pkg/errors *)

Module errors.

(** A program counter of the call stack, resolved to the function it lies
    in and to its line in lnd.go. *)
Record Frame := { fn : string; line : Z }.

Definition stack := list Frame.

(** A non-nil Go [error].  [New] stands for any error value built by a
    collaborator (pool, gRPC); [withStack] is the wrapper type of
    pkg/errors. *)
Inductive error :=
| New (msg : string)
| withStack (cause : error) (st : stack).

(** [callers]: at most [depth] program counters, innermost first. *)
Definition depth : nat := 32.

Definition callers (goroutine : stack) : stack := firstn depth goroutine.
Arguments callers : simpl never.

(** [errors.WithStack(err)] for a non-nil [err], called while the
    goroutine's stack is [goroutine] (the frame of the calling function
    first).  lnd.go calls it under [if err != nil] only. *)
Definition WithStack (goroutine : stack) (err : error) : error :=
  withStack err (callers goroutine).

(** [errors.Cause]: unwraps as long as the error has a cause. *)
Fixpoint Cause (err : error) : error :=
  match err with
  | New _ => err
  | withStack cause _ => Cause cause
  end.

(** [err.Error()]: [withStack] embeds the wrapped error, its message is
    the wrapped error's message. *)
Fixpoint Error (err : error) : string :=
  match err with
  | New msg => msg
  | withStack cause _ => Error cause
  end.

End errors.

(* ================================================================== *)
(** ** lnrpc: the request messages lnd.go builds *)

Module lnrpc.

Inductive WalletBalanceRequest := mkWalletBalanceRequest.
Inductive ChannelBalanceRequest := mkChannelBalanceRequest.
Inductive InvoiceSubscription := mkInvoiceSubscription.

Record ListChannelsRequest := {
  ActiveOnly : bool;
  InactiveOnly : bool;
  PublicOnly : bool;
  PrivateOnly : bool
}.

(** [lnrpc.Invoice] is the request of AddInvoice and also the message of
    LookupInvoice and of the invoice stream.  lnd.go names four of its
    fields; [Unnamed] holds all the others. *)
Record Invoice (Others : Type) := {
  Value : Z;
  Memo : string;
  CreationDate : Z;
  Expiry : Z;
  Unnamed : Others
}.
Arguments Value {Others}.
Arguments Memo {Others}.
Arguments CreationDate {Others}.
Arguments Expiry {Others}.
Arguments Unnamed {Others}.

Record PaymentHash := { RHashStr : string }.
Record SendRequest := { PaymentRequest : string }.
Record PayReqString := { PayReq : string }.

End lnrpc.

(* ================================================================== *)
(** ** network/options *)

Module options.

(** Modelled from the spec: network/options is not part of lnd.go, which
    only calls [options.NewChannelOptions(opt...)] and reads the fields
    [Active], [Inactive], [Public] and [Private] of its result.  The spec
    (4.3): a variadic set of filter options (active-only, inactive-only,
    public-only, private-only) merged into a single options record via
    defaults-then-override composition; (8): with no options all four
    flags are unset, active-only sets only the active flag. *)
Record ChannelOptions := {
  Active : bool;
  Inactive : bool;
  Public : bool;
  Private : bool
}.

(** Modelled from the spec: [options.Channel], one filter option; the spec
    (4.3) names four. *)
Inductive Channel := ActiveOnly | InactiveOnly | PublicOnly | PrivateOnly.

(** Modelled from the spec: the defaults, all four flags unset (8). *)
Definition defaults : ChannelOptions :=
  {| Active := false; Inactive := false; Public := false; Private := false |}.

(** Modelled from the spec: an option overrides its own flag and leaves the
    others as they are (8: active-only sets only the active flag). *)
Definition override (opts : ChannelOptions) (o : Channel) : ChannelOptions :=
  match o with
  | ActiveOnly =>
      {| Active := true; Inactive := Inactive opts;
         Public := Public opts; Private := Private opts |}
  | InactiveOnly =>
      {| Active := Active opts; Inactive := true;
         Public := Public opts; Private := Private opts |}
  | PublicOnly =>
      {| Active := Active opts; Inactive := Inactive opts;
         Public := true; Private := Private opts |}
  | PrivateOnly =>
      {| Active := Active opts; Inactive := Inactive opts;
         Public := Public opts; Private := true |}
  end.

(** Modelled from the spec: [options.NewChannelOptions], the defaults
    overridden by the options given, in their order (4.3). *)
Definition NewChannelOptions (opt : list Channel) : ChannelOptions :=
  fold_left override opt defaults.

(** [o] is one of the options [opt]. *)
Definition Channel_eqb (o o' : Channel) : bool :=
  match o, o' with
  | ActiveOnly, ActiveOnly | InactiveOnly, InactiveOnly
  | PublicOnly, PublicOnly | PrivateOnly, PrivateOnly => true
  | _, _ => false
  end.

Definition given (o : Channel) (opt : list Channel) : bool :=
  existsb (Channel_eqb o) opt.

End options.

(* ================================================================== *)
(** ** network/models *)

Module models.

(** [models.PayReq]: lnd.go reads [Destination], [Amount] and [String]. *)
Record PayReq := {
  Destination : string;
  Amount : Z;
  String : string
}.

(** Modelled from the spec: the [Invoice] model is declared outside
    lnd.go.  The spec (3, 8): a value built from a wire response and
    merged with the fields of the original request (amount, description,
    creation time, expiry); [FromWire] is whatever else the translators
    take from the wire. *)
Record Invoice (Wire : Type) := {
  InvoiceAmount : Z;
  Description : string;
  InvoiceCreationDate : Z;
  InvoiceExpiry : Z;
  FromWire : Wire
}.
Arguments InvoiceAmount {Wire}.
Arguments Description {Wire}.
Arguments InvoiceCreationDate {Wire}.
Arguments InvoiceExpiry {Wire}.
Arguments FromWire {Wire}.

(** Modelled from the spec: the [Payment] model is declared outside
    lnd.go.  The spec (4.3): the result combines the original request
    object with the wire response, so that fields the node does not echo
    are kept from the caller's input. *)
Record Payment (Wire : Type) := {
  Request : PayReq;
  Response : Wire
}.
Arguments Request {Wire}.
Arguments Response {Wire}.

Definition PaymentDestination {Wire} (p : Payment Wire) : string :=
  Destination (Request p).

Definition PaymentAmount {Wire} (p : Payment Wire) : Z :=
  Amount (Request p).

End models.

(* ================================================================== *)
(** ** What lnd.go imports and does not define *)

(** The types and functions lnd.go uses by name only: the context, the gRPC
    connection, the response messages of lnrpc, the value types of
    network/models and the translators of the package that are not in
    lnd.go.  Every statement below holds for all of them. *)
Class Externals := {
  context_Context : Type;
  grpc_ClientConn : Type;
  lnrpc_WalletBalanceResponse : Type;
  lnrpc_ChannelBalanceResponse : Type;
  lnrpc_ListChannelsResponse : Type;
  lnrpc_AddInvoiceResponse : Type;
  lnrpc_SendResponse : Type;
  lnrpc_PayReq : Type;
  lnrpc_InvoiceOthers : Type;
  (** the Go zero value of the fields of [lnrpc.Invoice] a literal leaves out *)
  lnrpc_InvoiceOthers_zero : lnrpc_InvoiceOthers;
  models_WalletBalance : Type;
  models_ChannelBalance : Type;
  models_Channel : Type;
  models_InvoiceWire : Type;
  models_PaymentWire : Type;
  protoToWalletBalance : lnrpc_WalletBalanceResponse -> models_WalletBalance;
  protoToChannelBalance : lnrpc_ChannelBalanceResponse -> models_ChannelBalance;
  listChannelsProtoToChannels : lnrpc_ListChannelsResponse -> list models_Channel;
  lookupInvoiceProtoToInvoice :
    lnrpc.Invoice lnrpc_InvoiceOthers -> models.Invoice models_InvoiceWire;
  payreqProtoToPayReq : lnrpc_PayReq -> string -> models.PayReq;
  (** what the invoice and payment translators keep of a wire response *)
  addInvoiceResponseFields : lnrpc_AddInvoiceResponse -> models_InvoiceWire;
  sendResponseFields : lnrpc_SendResponse -> models_PaymentWire
}.

(* ================================================================== *)
(** ** network/backend/pool, as lnd.go consumes it *)

Module pool.
Section Pool.
Context `{X : Externals}.

(** A leased connection, by what lnd.go asks of it: the embedded gRPC
    connection, [Target()] and the error [Close()] returns ([None] is nil). *)
Record Conn := {
  ClientConn : grpc_ClientConn;
  Target : string;
  Close : option errors.error
}.

(** [Pool.Get(ctx)] returns a connection or an error. *)
Record Pool := { Get : context_Context -> errors.error + Conn }.

End Pool.
End pool.

(* ================================================================== *)
(** ** lnrpc.LightningClient, the remote stub *)

Module stub.
Section Stub.
Context `{X : Externals}.

(** [lnrpc.Lightning_SubscribeInvoicesClient]: [Recv k] is what the call
    number [k] (from 0) of [Recv()] returns. *)
Record Lightning_SubscribeInvoicesClient := {
  Recv : nat -> errors.error + lnrpc.Invoice lnrpc_InvoiceOthers
}.

(** The methods of the interface lnd.go calls; each returns a response and
    a nil error, or a non-nil error. *)
Record LightningClient := {
  WalletBalance :
    context_Context -> lnrpc.WalletBalanceRequest ->
    errors.error + lnrpc_WalletBalanceResponse;
  ChannelBalance :
    context_Context -> lnrpc.ChannelBalanceRequest ->
    errors.error + lnrpc_ChannelBalanceResponse;
  ListChannels :
    context_Context -> lnrpc.ListChannelsRequest ->
    errors.error + lnrpc_ListChannelsResponse;
  AddInvoice :
    context_Context -> lnrpc.Invoice lnrpc_InvoiceOthers ->
    errors.error + lnrpc_AddInvoiceResponse;
  LookupInvoice :
    context_Context -> lnrpc.PaymentHash ->
    errors.error + lnrpc.Invoice lnrpc_InvoiceOthers;
  SendPaymentSync :
    context_Context -> lnrpc.SendRequest ->
    errors.error + lnrpc_SendResponse;
  DecodePayReq :
    context_Context -> lnrpc.PayReqString ->
    errors.error + lnrpc_PayReq;
  SubscribeInvoices :
    context_Context -> lnrpc.InvoiceSubscription ->
    errors.error + Lightning_SubscribeInvoicesClient
}.

End Stub.
End stub.

(* ================================================================== *)
(** ** logging, as lnd.go consumes it *)

Module logging.
Section Logging.
Context `{X : Externals}.

Inductive Level := LevelDebug | LevelInfo.

(** The models lnd.go hands to [logging.Object]. *)
Inductive Marshaler :=
| OfWalletBalance (v : models_WalletBalance)
| OfChannelBalance (v : models_ChannelBalance)
| OfChannel (v : models_Channel)
| OfInvoice (v : models.Invoice models_InvoiceWire)
| OfPayment (v : models.Payment models_PaymentWire).

Inductive Field :=
| String (k : string) (v : string)
| Int64 (k : string) (v : Z)
| Object (k : string) (v : Marshaler).

End Logging.
End logging.

(* ================================================================== *)
(** ** package lnd *)

Module lnd.
Local Open Scope list_scope.

(** How far an operation got: it returned a value and a nil error, it
    returned a non-nil error, it panicked, or it is still inside an
    unbounded loop when the fuel of the model ran out. *)
Inductive Outcome (A : Type) :=
| Return (a : A)
| Fail (err : errors.error)
| Panic (reason : string)
| Running.
Arguments Return {A}.
Arguments Fail {A}.
Arguments Panic {A}.
Arguments Running {A}.

Section Lnd.
Context `{X : Externals}.

Definition lndDefaultInvoiceExpiry : Z := 3600.

Record Client := {
  LightningClient : stub.LightningClient;
  conn : pool.Conn
}.

(** [Backend]: [cfg.ID] and the pool.  The logger is the sink of the [EvLog]
    events. *)
Record Backend := {
  cfg_ID : string;
  pool : pool.Pool
}.

(** What the operation finds around it: [lnrpc.NewLightningClient], the
    clock behind [time.Now().Unix()] and the frames of its callers,
    innermost first, as [runtime.Callers] would report them. *)
Record World := {
  NewLightningClient : grpc_ClientConn -> stub.LightningClient;
  time_Now_Unix : Z;
  runtime_Callers : errors.stack
}.

(** *** Events *)

(** A request handed to the stub. *)
Inductive Request :=
| ReqWalletBalance (req : lnrpc.WalletBalanceRequest)
| ReqChannelBalance (req : lnrpc.ChannelBalanceRequest)
| ReqListChannels (req : lnrpc.ListChannelsRequest)
| ReqAddInvoice (req : lnrpc.Invoice lnrpc_InvoiceOthers)
| ReqLookupInvoice (req : lnrpc.PaymentHash)
| ReqSendPaymentSync (req : lnrpc.SendRequest)
| ReqDecodePayReq (req : lnrpc.PayReqString)
| ReqSubscribeInvoices (req : lnrpc.InvoiceSubscription).

Inductive Event :=
| EvLog (lvl : logging.Level) (msg : string) (fields : list logging.Field)
    (** a call of [l.logger.Debug] or [l.logger.Info] *)
| EvGet (ctx : context_Context) (r : errors.error + pool.Conn)
    (** [l.pool.Get(ctx)] returned [r] *)
| EvCall (c : pool.Conn) (ctx : context_Context) (req : Request)
    (err : option errors.error)
    (** a call through the stub of the facade that owns [c]; [err] is the
        error it returned, [None] for nil *)
| EvClose (c : pool.Conn)
    (** [c.Close()] *)
| EvNow
    (** [time.Now()] *)
| EvRecv (err : option errors.error)
    (** one [Recv()] on the invoice stream and the error it returned *)
| EvSend (inv : models.Invoice models_InvoiceWire).
    (** [channelInvoice <- inv] *)

(** *** The monad of operations *)

Definition M (A : Type) : Type := Outcome A * list Event.

Definition outcome {A} (m : M A) : Outcome A := fst m.
Definition trace {A} (m : M A) : list Event := snd m.

Definition ret {A} (a : A) : M A := (Return a, []).

Definition bind {A B} (m : M A) (k : A -> M B) : M B :=
  match outcome m with
  | Return a => (outcome (k a), trace m ++ trace (k a))
  | Fail err => (Fail err, trace m)
  | Panic reason => (Panic reason, trace m)
  | Running => (Running, trace m)
  end.

Definition emit (ev : Event) : M unit := (Return tt, [ev]).

Notation "x <- m ;; k" := (bind m (fun x => k))
  (at level 61, m at next level, right associativity).
Notation "m ;; k" := (bind m (fun _ => k))
  (at level 61, right associativity).

(** [v, err := f(); if err != nil { return nil, wrap(err) }] *)
Definition or_return {A} (wrap : errors.error -> errors.error)
    (r : errors.error + A) : M A :=
  match r with
  | inl err => (Fail (wrap err), [])
  | inr v => ret v
  end.

(** [*p] *)
Definition deref {A} (p : option A) : M A :=
  match p with
  | Some v => ret v
  | None => (Panic "invalid memory address or nil pointer dereference", [])
  end.

(** [defer d; body]: the deferred call runs when [body] leaves the function,
    by a return or by a panic; what it returns is dropped. *)
Definition defer {A B} (d : M B) (body : M A) : M A :=
  match outcome body with
  | Running => body
  | _ => (outcome body, trace body ++ trace d)
  end.

Definition error_of {A} (r : errors.error + A) : option errors.error :=
  match r with
  | inl err => Some err
  | inr _ => None
  end.

Section Operations.
Variable w : World.
Variable l : Backend.

Definition Debug (msg : string) (fields : list logging.Field) : M unit :=
  emit (EvLog logging.LevelDebug msg fields).

Definition Info (msg : string) (fields : list logging.Field) : M unit :=
  emit (EvLog logging.LevelInfo msg fields).

(** The goroutine's stack while line [line] of method [method] of [Backend]
    runs. *)
Definition at_line (method : string) (line : Z) : errors.stack :=
  {| errors.fn :=
       ("github.com/edouardparis/lntop/network/backend/lnd.Backend." ++ method)%string;
     errors.line := line |} :: runtime_Callers w.

(** [return nil, err] *)
Definition unchanged (err : errors.error) : errors.error := err.

(** [return nil, errors.WithStack(err)] at line [line] of [method] *)
Definition with_stack (method : string) (line : Z) (err : errors.error)
    : errors.error :=
  errors.WithStack (at_line method line) err.

(** One call through the stub of [clt], with what it returned. *)
Definition call {A} (clt : Client) (ctx : context_Context) (req : Request)
    (r : errors.error + A) (wrap : errors.error -> errors.error) : M A :=
  emit (EvCall (conn clt) ctx req (error_of r)) ;;
  or_return wrap r.

Definition NodeName : string := cfg_ID l.

Definition Client_Close (c : Client) : M (option errors.error) :=
  emit (EvClose (conn c)) ;;
  ret (pool.Close (conn c)).

Definition Backend_Client (ctx : context_Context) : M Client :=
  let r := pool.Get (pool l) ctx in
  conn <- (emit (EvGet ctx r) ;; or_return unchanged r) ;;
  Debug "Client connection retrieved"
    [logging.String "target" (pool.Target conn)] ;;
  ret {| LightningClient := NewLightningClient w (pool.ClientConn conn);
         conn := conn |}.

Definition GetWalletBalance (ctx : context_Context) : M models_WalletBalance :=
  Debug "Retrieve wallet balance..." [] ;;
  clt <- Backend_Client ctx ;;
  defer (Client_Close clt) (
    let req := lnrpc.mkWalletBalanceRequest in
    resp <- call clt ctx (ReqWalletBalance req)
              (stub.WalletBalance (LightningClient clt) ctx req)
              (with_stack "GetWalletBalance" 93) ;;
    let balance := protoToWalletBalance resp in
    Debug "Wallet balance retrieved"
      [logging.Object "wallet" (logging.OfWalletBalance balance)] ;;
    ret balance).

Definition GetChannelBalance (ctx : context_Context) : M models_ChannelBalance :=
  Debug "Retrieve channel balance..." [] ;;
  clt <- Backend_Client ctx ;;
  defer (Client_Close clt) (
    let req := lnrpc.mkChannelBalanceRequest in
    resp <- call clt ctx (ReqChannelBalance req)
              (stub.ChannelBalance (LightningClient clt) ctx req)
              (with_stack "GetChannelBalance" 115) ;;
    let balance := protoToChannelBalance resp in
    Debug "Channel balance retrieved"
      [logging.Object "balance" (logging.OfChannelBalance balance)] ;;
    ret balance).

(** [fmt.Sprintf("channel_%d", i)] *)
Definition channel_key (i : nat) : string :=
  ("channel_" ++ NilEmpty.string_of_uint (Nat.to_uint i))%string.

(** [fields[i] = logging.Object(fmt.Sprintf("channel_%d", i), channels[i])]
    for [i] over [range channels] *)
Definition channel_fields (channels : list models_Channel) : list logging.Field :=
  map (fun ic => logging.Object (channel_key (fst ic)) (logging.OfChannel (snd ic)))
      (combine (seq 0 (List.length channels)) channels).

Definition ListChannels (ctx : context_Context) (opt : list options.Channel)
    : M (list models_Channel) :=
  Debug "List channels" [] ;;
  clt <- Backend_Client ctx ;;
  defer (Client_Close clt) (
    let opts := options.NewChannelOptions opt in
    let req := {| lnrpc.ActiveOnly := options.Active opts;
                  lnrpc.InactiveOnly := options.Inactive opts;
                  lnrpc.PublicOnly := options.Public opts;
                  lnrpc.PrivateOnly := options.Private opts |} in
    resp <- call clt ctx (ReqListChannels req)
              (stub.ListChannels (LightningClient clt) ctx req)
              (with_stack "ListChannels" 144) ;;
    let channels := listChannelsProtoToChannels resp in
    let fields := channel_fields channels in
    Debug "Channels retrieved" fields ;;
    ret channels).

(** Modelled from the spec: [addInvoiceProtoToInvoice] is declared outside
    lnd.go.  The spec (3, 4.3 step 5, 8): the wire response is combined with
    the request-side fields it does not echo, so that the invoice's amount,
    description, creation time and expiry are those of the request whatever
    the response holds. *)
Definition addInvoiceProtoToInvoice (req : lnrpc.Invoice lnrpc_InvoiceOthers)
    (resp : lnrpc_AddInvoiceResponse) : models.Invoice models_InvoiceWire :=
  {| models.InvoiceAmount := lnrpc.Value req;
     models.Description := lnrpc.Memo req;
     models.InvoiceCreationDate := lnrpc.CreationDate req;
     models.InvoiceExpiry := lnrpc.Expiry req;
     models.FromWire := addInvoiceResponseFields resp |}.

(** [time.Now().Unix()] *)
Definition time_Now_then_Unix : M Z :=
  emit EvNow ;;
  ret (time_Now_Unix w).

Definition CreateInvoice (ctx : context_Context) (amount : Z) (desc : string)
    : M (models.Invoice models_InvoiceWire) :=
  Debug "Create invoice..."
    [logging.Int64 "amount" amount; logging.String "desc" desc] ;;
  clt <- Backend_Client ctx ;;
  defer (Client_Close clt) (
    now <- time_Now_then_Unix ;;
    let req := {| lnrpc.Value := amount;
                  lnrpc.Memo := desc;
                  lnrpc.CreationDate := now;
                  lnrpc.Expiry := lndDefaultInvoiceExpiry;
                  lnrpc.Unnamed := lnrpc_InvoiceOthers_zero |} in
    resp <- call clt ctx (ReqAddInvoice req)
              (stub.AddInvoice (LightningClient clt) ctx req)
              (with_stack "CreateInvoice" 180) ;;
    let invoice := addInvoiceProtoToInvoice req resp in
    Debug "Invoice retrieved"
      [logging.Object "invoice" (logging.OfInvoice invoice)] ;;
    ret invoice).

Definition GetInvoice (ctx : context_Context) (RHash : string)
    : M (models.Invoice models_InvoiceWire) :=
  Debug "Retrieve invoice..." [logging.String "r_hash" RHash] ;;
  clt <- Backend_Client ctx ;;
  defer (Client_Close clt) (
    let req := {| lnrpc.RHashStr := RHash |} in
    resp <- call clt ctx (ReqLookupInvoice req)
              (stub.LookupInvoice (LightningClient clt) ctx req)
              (with_stack "GetInvoice" 205) ;;
    let invoice := lookupInvoiceProtoToInvoice resp in
    Debug "Invoice retrieved"
      [logging.Object "invoice" (logging.OfInvoice invoice)] ;;
    ret invoice).

(** Modelled from the spec: [sendPaymentProtoToPayment] is declared outside
    lnd.go.  The spec (4.3): the payment is rebuilt by combining the original
    request object with the wire response. *)
Definition sendPaymentProtoToPayment (payreq : models.PayReq)
    (resp : lnrpc_SendResponse) : models.Payment models_PaymentWire :=
  {| models.Request := payreq;
     models.Response := sendResponseFields resp |}.

(** [payreq] is a pointer: [None] is nil, and reading a field of it for the
    first log line panics. *)
Definition SendPayment (ctx : context_Context) (payreq : option models.PayReq)
    : M (models.Payment models_PaymentWire) :=
  p <- deref payreq ;;
  Debug "Send payment..."
    [logging.String "destination" (models.Destination p);
     logging.Int64 "amount" (models.Amount p)] ;;
  clt <- Backend_Client ctx ;;
  defer (Client_Close clt) (
    let req := {| lnrpc.PaymentRequest := models.String p |} in
    resp <- call clt ctx (ReqSendPaymentSync req)
              (stub.SendPaymentSync (LightningClient clt) ctx req)
              (with_stack "SendPayment" 231) ;;
    let payment := sendPaymentProtoToPayment p resp in
    Debug "Payment paid"
      [logging.Object "payment" (logging.OfPayment payment)] ;;
    ret payment).

Definition DecodePayReq (ctx : context_Context) (payreq : string)
    : M models.PayReq :=
  Info "decode payreq" [logging.String "payreq" payreq] ;;
  clt <- Backend_Client ctx ;;
  defer (Client_Close clt) (
    let req := {| lnrpc.PayReq := payreq |} in
    resp <- call clt ctx (ReqDecodePayReq req)
              (stub.DecodePayReq (LightningClient clt) ctx req)
              (with_stack "DecodePayReq" 251) ;;
    ret (payreqProtoToPayReq resp payreq)).

(** *** The subscription *)

(** The [for] loop of [SubscribeInvoice], about to make call number [k] of
    [Recv()].  The loop has no bound: [fuel] is the number of iterations the
    model follows before it answers [Running]. *)
Fixpoint recv_loop (fuel : nat)
    (cltInvoices : stub.Lightning_SubscribeInvoicesClient) (k : nat) : M unit :=
  match fuel with
  | O => (Running, [])
  | S fuel' =>
      let r := stub.Recv cltInvoices k in
      invoice <- (emit (EvRecv (error_of r)) ;; or_return unchanged r) ;;
      emit (EvSend (lookupInvoiceProtoToInvoice invoice)) ;;
      recv_loop fuel' cltInvoices (S k)
  end.

Definition SubscribeInvoice (fuel : nat) (ctx : context_Context) : M unit :=
  clt <- Backend_Client ctx ;;
  let req := lnrpc.mkInvoiceSubscription in
  cltInvoices <- call clt ctx (ReqSubscribeInvoices req)
                   (stub.SubscribeInvoices (LightningClient clt) ctx req)
                   unchanged ;;
  recv_loop fuel cltInvoices 0.

(** *** The seven unary operations as one family *)

Inductive UnaryCall :=
| CallGetWalletBalance
| CallGetChannelBalance
| CallListChannels (opt : list options.Channel)
| CallCreateInvoice (amount : Z) (desc : string)
| CallGetInvoice (RHash : string)
| CallSendPayment (payreq : option models.PayReq)
| CallDecodePayReq (payreq : string).

Inductive Model :=
| AWalletBalance (v : models_WalletBalance)
| AChannelBalance (v : models_ChannelBalance)
| AChannels (v : list models_Channel)
| AnInvoice (v : models.Invoice models_InvoiceWire)
| APayment (v : models.Payment models_PaymentWire)
| APayReq (v : models.PayReq).

(** The outcome and trace of [m], its value tagged by [f]. *)
Definition tagged {A B} (f : A -> B) (m : M A) : M B :=
  m' <- m ;; ret (f m').

Definition unary (ctx : context_Context) (c : UnaryCall) : M Model :=
  match c with
  | CallGetWalletBalance => tagged AWalletBalance (GetWalletBalance ctx)
  | CallGetChannelBalance => tagged AChannelBalance (GetChannelBalance ctx)
  | CallListChannels opt => tagged AChannels (ListChannels ctx opt)
  | CallCreateInvoice amount desc => tagged AnInvoice (CreateInvoice ctx amount desc)
  | CallGetInvoice RHash => tagged AnInvoice (GetInvoice ctx RHash)
  | CallSendPayment payreq => tagged APayment (SendPayment ctx payreq)
  | CallDecodePayReq payreq => tagged APayReq (DecodePayReq ctx payreq)
  end.

(** The method behind a call and the line of its [errors.WithStack]. *)
Definition method_of (c : UnaryCall) : string :=
  match c with
  | CallGetWalletBalance => "GetWalletBalance"
  | CallGetChannelBalance => "GetChannelBalance"
  | CallListChannels _ => "ListChannels"
  | CallCreateInvoice _ _ => "CreateInvoice"
  | CallGetInvoice _ => "GetInvoice"
  | CallSendPayment _ => "SendPayment"
  | CallDecodePayReq _ => "DecodePayReq"
  end.

Definition with_stack_line_of (c : UnaryCall) : Z :=
  match c with
  | CallGetWalletBalance => 93
  | CallGetChannelBalance => 115
  | CallListChannels _ => 144
  | CallCreateInvoice _ _ => 180
  | CallGetInvoice _ => 205
  | CallSendPayment _ => 231
  | CallDecodePayReq _ => 251
  end.

(** *** Reading a trace *)

Definition closes (t : list Event) : list pool.Conn :=
  flat_map (fun ev => match ev with EvClose c => [c] | _ => [] end) t.

Definition acquisitions (t : list Event) : list (errors.error + pool.Conn) :=
  flat_map (fun ev => match ev with EvGet _ r => [r] | _ => [] end) t.

Definition requests (t : list Event) : list (pool.Conn * Request) :=
  flat_map (fun ev => match ev with EvCall c _ req _ => [(c, req)] | _ => [] end) t.

Definition failed_calls (t : list Event) : list errors.error :=
  flat_map (fun ev => match ev with EvCall _ _ _ (Some err) => [err] | _ => [] end) t.

Definition sends (t : list Event) : list (models.Invoice models_InvoiceWire) :=
  flat_map (fun ev => match ev with EvSend inv => [inv] | _ => [] end) t.

(** [c] was handed out by the pool / the pool refused with [err]. *)
Definition acquired (c : pool.Conn) (t : list Event) : Prop :=
  In (inr c) (acquisitions t).

Definition acquisition_failed (err : errors.error) (t : list Event) : Prop :=
  In (inl err) (acquisitions t).

(** The operation came back to its caller, with a value or with an error. *)
Definition returned {A} (o : Outcome A) : Prop :=
  match o with
  | Return _ | Fail _ => True
  | Panic _ | Running => False
  end.

(** The connections the pool handed out. *)
Definition granted (t : list Event) : list pool.Conn :=
  flat_map (fun ev => match ev with EvGet _ (inr c) => [c] | _ => [] end) t.

(** The errors [Recv()] returned. *)
Definition recv_errors (t : list Event) : list errors.error :=
  flat_map (fun ev => match ev with EvRecv (Some err) => [err] | _ => [] end) t.

(** The log records, level apart. *)
Definition logged (t : list Event) : list (string * list logging.Field) :=
  flat_map (fun ev => match ev with EvLog _ msg fields => [(msg, fields)] | _ => [] end) t.

End Operations.

(** *** A caller *)

(** One unary call of a caller, against the backend and the world as they
    are when it is made. *)
Record Step := {
  step_world : World;
  step_backend : Backend;
  step_ctx : context_Context;
  step_call : UnaryCall
}.

(** The events of a caller that makes the calls [steps] one after the other
    and goes on whatever each of them returns. *)
Definition session (steps : list Step) : list Event :=
  flat_map (fun s => trace (unary (step_world s) (step_backend s) (step_ctx s)
                              (step_call s)))
           steps.

End Lnd.
End lnd.

(* ================================================================== *)
(** ** A concrete world *)

Module sample.

(** Small stand-ins for the external types: a wallet or channel balance is
    its amount, a channel its capacity, an add-invoice response its payment
    request, a send response its payment error, a decoded payment request its
    destination and amount; of the other fields of a wire invoice only
    [settled] is kept. *)
Definition externals : Externals := {|
  context_Context := unit;
  grpc_ClientConn := nat;
  lnrpc_WalletBalanceResponse := Z;
  lnrpc_ChannelBalanceResponse := Z;
  lnrpc_ListChannelsResponse := list Z;
  lnrpc_AddInvoiceResponse := string;
  lnrpc_SendResponse := string;
  lnrpc_PayReq := string * Z;
  lnrpc_InvoiceOthers := bool;
  lnrpc_InvoiceOthers_zero := false;
  models_WalletBalance := Z;
  models_ChannelBalance := Z;
  models_Channel := Z;
  models_InvoiceWire := string;
  models_PaymentWire := string;
  protoToWalletBalance := fun resp => resp;
  protoToChannelBalance := fun resp => resp;
  listChannelsProtoToChannels := fun resp => resp;
  lookupInvoiceProtoToInvoice := fun inv =>
    {| models.InvoiceAmount := lnrpc.Value inv;
       models.Description := lnrpc.Memo inv;
       models.InvoiceCreationDate := lnrpc.CreationDate inv;
       models.InvoiceExpiry := lnrpc.Expiry inv;
       models.FromWire := if lnrpc.Unnamed inv then "settled" else "open" |};
  payreqProtoToPayReq := fun resp payreq =>
    {| models.Destination := fst resp;
       models.Amount := snd resp;
       models.String := payreq |};
  addInvoiceResponseFields := fun resp => resp;
  sendResponseFields := fun resp => resp
|}.

#[local] Existing Instance externals.

Definition conn7 : pool.Conn :=
  {| pool.ClientConn := 7%nat; pool.Target := "127.0.0.1:10009"; pool.Close := None |}.

Definition unavailable : errors.error := errors.New "rpc error: code = Unavailable".
Definition exhausted : errors.error := errors.New "pool: exhausted".
Definition eof : errors.error := errors.New "EOF".

Definition invoice1 : lnrpc.Invoice bool :=
  {| lnrpc.Value := 10; lnrpc.Memo := "one"; lnrpc.CreationDate := 1700000001;
     lnrpc.Expiry := 3600; lnrpc.Unnamed := true |}.

Definition invoice2 : lnrpc.Invoice bool :=
  {| lnrpc.Value := 20; lnrpc.Memo := "two"; lnrpc.CreationDate := 1700000002;
     lnrpc.Expiry := 600; lnrpc.Unnamed := false |}.

(** A stream that delivers [invoice1], [invoice2] and then ends. *)
Definition two_invoices : stub.Lightning_SubscribeInvoicesClient :=
  {| stub.Recv := fun k =>
       match k with
       | O => inr invoice1
       | S O => inr invoice2
       | _ => inl eof
       end |}.

(** A node that answers every call.  Its add-invoice response echoes
    nothing of the request, its send response is an empty payment error. *)
Definition node_up : stub.LightningClient :=
  {| stub.WalletBalance := fun _ _ => inr 1000;
     stub.ChannelBalance := fun _ _ => inr 400;
     stub.ListChannels := fun _ _ => inr [250; 150];
     stub.AddInvoice := fun _ _ => inr "lnbc1";
     stub.LookupInvoice := fun _ _ => inr invoice1;
     stub.SendPaymentSync := fun _ _ => inr "";
     stub.DecodePayReq := fun _ _ => inr ("02abc", 100);
     stub.SubscribeInvoices := fun _ _ => inr two_invoices |}.

(** A node that fails every call with the same error. *)
Definition node_down : stub.LightningClient :=
  {| stub.WalletBalance := fun _ _ => inl unavailable;
     stub.ChannelBalance := fun _ _ => inl unavailable;
     stub.ListChannels := fun _ _ => inl unavailable;
     stub.AddInvoice := fun _ _ => inl unavailable;
     stub.LookupInvoice := fun _ _ => inl unavailable;
     stub.SendPaymentSync := fun _ _ => inl unavailable;
     stub.DecodePayReq := fun _ _ => inl unavailable;
     stub.SubscribeInvoices := fun _ _ => inl unavailable |}.

Definition main_frame : errors.Frame := {| errors.fn := "main.main"; errors.line := 42 |}.

Definition world_up : lnd.World :=
  {| lnd.NewLightningClient := fun _ => node_up;
     lnd.time_Now_Unix := 1700000000;
     lnd.runtime_Callers := [main_frame] |}.

Definition world_down : lnd.World :=
  {| lnd.NewLightningClient := fun _ => node_down;
     lnd.time_Now_Unix := 1700000000;
     lnd.runtime_Callers := [main_frame] |}.

(** A backend whose pool hands out [conn7], and one whose pool is exhausted. *)
Definition backend : lnd.Backend :=
  {| lnd.cfg_ID := "node"; lnd.pool := {| pool.Get := fun _ => inr conn7 |} |}.

Definition backend_exhausted : lnd.Backend :=
  {| lnd.cfg_ID := "node"; lnd.pool := {| pool.Get := fun _ => inl exhausted |} |}.

Definition payreq100 : models.PayReq :=
  {| models.Destination := "02abc"; models.Amount := 100; models.String := "lnbc1u" |}.

(** A stream that never ends, and a node that serves it. *)
Definition endless_invoices : stub.Lightning_SubscribeInvoicesClient :=
  {| stub.Recv := fun _ => inr invoice2 |}.

Definition node_streaming : stub.LightningClient :=
  {| stub.WalletBalance := fun _ _ => inr 1000;
     stub.ChannelBalance := fun _ _ => inr 400;
     stub.ListChannels := fun _ _ => inr [];
     stub.AddInvoice := fun _ _ => inr "lnbc1";
     stub.LookupInvoice := fun _ _ => inr invoice2;
     stub.SendPaymentSync := fun _ _ => inr "";
     stub.DecodePayReq := fun _ _ => inr ("02abc", 100);
     stub.SubscribeInvoices := fun _ _ => inr endless_invoices |}.

Definition world_streaming : lnd.World :=
  {| lnd.NewLightningClient := fun _ => node_streaming;
     lnd.time_Now_Unix := 1700000000;
     lnd.runtime_Callers := [main_frame] |}.

(** The connection of [conn7] under another target, with a [Close()] that
    fails, and a backend whose pool hands it out. *)
Definition conn7_failing_close : pool.Conn :=
  {| pool.ClientConn := 7%nat; pool.Target := "lnd.local:10009";
     pool.Close := Some (errors.New "close: already closed") |}.

Definition backend_failing_close : lnd.Backend :=
  {| lnd.cfg_ID := "node"; lnd.pool := {| pool.Get := fun _ => inr conn7_failing_close |} |}.

End sample.

(* ================================================================== *)
(** ** Properties *)

Section Properties.
Import lnd.
Local Open Scope list_scope.
Context `{X : Externals}.
Variable w : World.
Variable l : Backend.

(** Unfolds an operation down to the answers of the pool and of the stub, and
    splits on them. *)
Ltac unfold_operation :=
  unfold unary, tagged, GetWalletBalance, GetChannelBalance, ListChannels,
    CreateInvoice, GetInvoice, SendPayment, DecodePayReq, SubscribeInvoice,
    Backend_Client, Client_Close, call, Debug, Info, time_Now_then_Unix, deref.

Ltac split_on_pool l ctx :=
  destruct (pool.Get (pool l) ctx) as [?err|?c] eqn:?Eget; cbn.

Ltac split_on_stub :=
  match goal with
  | |- context [or_return _ ?r] => destruct r as [?err|?resp] eqn:?Ecall; cbn
  end.

(** *** Reading a trace, piece by piece *)

Lemma closes_app (t1 t2 : list Event) :
  closes (t1 ++ t2) = closes t1 ++ closes t2.
Proof. apply flat_map_app. Qed.

Lemma sends_app (t1 t2 : list Event) :
  sends (t1 ++ t2) = sends t1 ++ sends t2.
Proof. apply flat_map_app. Qed.

(** *** The facade *)

Lemma Backend_Client_acquires ctx c :
  pool.Get (pool l) ctx = inr c ->
  Backend_Client w l ctx =
    (Return {| LightningClient := NewLightningClient w (pool.ClientConn c);
               conn := c |},
     [EvGet ctx (inr c);
      EvLog logging.LevelDebug "Client connection retrieved"
        [logging.String "target" (pool.Target c)]]).
Proof. intros Eget. unfold Backend_Client. rewrite Eget. reflexivity. Qed.

Lemma Backend_Client_refused ctx err :
  pool.Get (pool l) ctx = inl err ->
  Backend_Client w l ctx = (Fail err, [EvGet ctx (inl err)]).
Proof. intros Eget. unfold Backend_Client. rewrite Eget. reflexivity. Qed.

(** Every unary call except [SendPayment(ctx, nil)] asks the pool exactly
    once, so what the trace says of the acquisition is what the pool
    answered. *)
Lemma unary_asks_pool_once ctx call :
  call <> CallSendPayment None ->
  acquisitions (trace (unary w l ctx call)) = [pool.Get (pool l) ctx].
Proof.
  intros Hnil.
  destruct call as [ | | opt | amount desc | RHash | [p|] | payreq ];
    try congruence;
    unfold_operation; cbn;
    split_on_pool l ctx; try split_on_stub; reflexivity.
Qed.

(** [SendPayment(ctx, nil)] panics on its first line, before it asks the
    pool for anything. *)
Lemma SendPayment_nil_panics ctx :
  exists reason, SendPayment w l ctx None = (Panic reason, []).
Proof. eexists. reflexivity. Qed.

(** *** The filter options *)

Lemma fold_override_flags opt :
  forall opts,
    let opts' := fold_left options.override opt opts in
    options.Active opts' = options.Active opts || options.given options.ActiveOnly opt /\
    options.Inactive opts' = options.Inactive opts || options.given options.InactiveOnly opt /\
    options.Public opts' = options.Public opts || options.given options.PublicOnly opt /\
    options.Private opts' = options.Private opts || options.given options.PrivateOnly opt.
Proof.
  induction opt as [|o opt IH]; intros opts; cbn.
  - rewrite !orb_false_r. repeat split; reflexivity.
  - destruct (IH (options.override opts o)) as (Ha & Hi & Hpu & Hpr).
    rewrite Ha, Hi, Hpu, Hpr.
    destruct o; cbn; rewrite ?orb_true_r, ?orb_false_r; repeat split; reflexivity.
Qed.

(** A flag of the merged options is set exactly when its option is among
    the ones given. *)
Lemma NewChannelOptions_flags opt :
  options.NewChannelOptions opt =
    {| options.Active := options.given options.ActiveOnly opt;
       options.Inactive := options.given options.InactiveOnly opt;
       options.Public := options.given options.PublicOnly opt;
       options.Private := options.given options.PrivateOnly opt |}.
Proof.
  unfold options.NewChannelOptions.
  destruct (fold_override_flags opt options.defaults) as (Ha & Hi & Hpu & Hpr).
  destruct (fold_left options.override opt options.defaults) as [a i pu pr].
  cbn in *. congruence.
Qed.

(** *** The receive loop *)

Lemma recv_loop_step fuel cltInvoices k :
  recv_loop (S fuel) cltInvoices k =
    match stub.Recv cltInvoices k with
    | inl err => (Fail err, [EvRecv (Some err)])
    | inr invoice =>
        (outcome (recv_loop fuel cltInvoices (S k)),
         EvRecv None :: EvSend (lookupInvoiceProtoToInvoice invoice)
           :: trace (recv_loop fuel cltInvoices (S k)))
    end.
Proof.
  cbn [recv_loop]. destruct (stub.Recv cltInvoices k); reflexivity.
Qed.

(** A stream that yields the messages [msgs] from call [k] on and then the
    error [E] makes the loop send their translations in order and return [E],
    as soon as the fuel covers the [length msgs + 1] calls of [Recv]. *)
Lemma recv_loop_delivers cltInvoices E msgs :
  forall fuel k,
    (forall i m, nth_error msgs i = Some m ->
                 stub.Recv cltInvoices (k + i) = inr m) ->
    stub.Recv cltInvoices (k + List.length msgs) = inl E ->
    (List.length msgs < fuel)%nat ->
    recv_loop fuel cltInvoices k =
      (Fail E,
       flat_map (fun m => [EvRecv None; EvSend (lookupInvoiceProtoToInvoice m)]) msgs
         ++ [EvRecv (Some E)]).
Proof.
  induction msgs as [|m msgs IH]; intros fuel k Hmsgs Hend Hfuel;
    (destruct fuel as [|fuel]; [cbn in Hfuel; lia|]);
    rewrite recv_loop_step.
  - cbn in Hend. rewrite Nat.add_0_r in Hend. rewrite Hend. reflexivity.
  - specialize (Hmsgs 0%nat m eq_refl) as Hhead.
    rewrite Nat.add_0_r in Hhead. rewrite Hhead.
    rewrite (IH fuel (S k)).
    + reflexivity.
    + intros i m' Hi.
      replace (S k + i)%nat with (k + S i)%nat by lia.
      apply Hmsgs. exact Hi.
    + replace (S k + List.length msgs)%nat
        with (k + List.length (m :: msgs))%nat by (cbn; lia).
      exact Hend.
    + cbn in Hfuel. lia.
Qed.

Lemma recv_loop_never_closes cltInvoices :
  forall fuel k, closes (trace (recv_loop fuel cltInvoices k)) = [].
Proof.
  induction fuel as [|fuel IH]; intros k.
  - reflexivity.
  - rewrite recv_loop_step.
    destruct (stub.Recv cltInvoices k); cbn; [reflexivity | apply IH].
Qed.

(** *** The unary operations *)

(** Closes a goal whose hypothesis is a membership in a one-element or empty
    list read off a computed trace. *)
Ltac by_membership :=
  let Hin := fresh "Hin" in
  intros Hin; cbn in Hin;
  repeat match type of Hin with
         | _ \/ _ => destruct Hin as [Hin|Hin]
         | False => destruct Hin
         end;
  try discriminate Hin;
  try (inversion Hin; subst);
  repeat split; reflexivity.

(** C1. For each of the seven unary operations, once the pool has handed out
    a connection, the trace of the operation holds exactly one [Close], that
    of this connection, and the operation returns (a value on the success
    path, an error on the remote-error path): never no release, never two. *)
Theorem unary_release_exactly_once ctx call c :
  acquired c (trace (unary w l ctx call)) ->
  closes (trace (unary w l ctx call)) = [c] /\
  returned (outcome (unary w l ctx call)).
Proof.
  destruct call as [ | | opt | amount desc | RHash | [p|] | payreq ];
    unfold_operation; unfold acquired; cbn;
    split_on_pool l ctx; try split_on_stub; by_membership.
Qed.

(** C2. For each of the seven unary operations, if the pool refuses with an
    error, the operation returns that error, hands no request to the stub
    and closes nothing. *)
Theorem unary_refused_no_call_no_release ctx call err :
  acquisition_failed err (trace (unary w l ctx call)) ->
  outcome (unary w l ctx call) = Fail err /\
  requests (trace (unary w l ctx call)) = [] /\
  closes (trace (unary w l ctx call)) = [].
Proof.
  destruct call as [ | | opt | amount desc | RHash | [p|] | payreq ];
    unfold_operation; unfold acquisition_failed; cbn;
    split_on_pool l ctx; try split_on_stub; by_membership.
Qed.

(** C3. With a connection from the pool, [CreateInvoice(amount, desc)] hands
    the stub exactly one request: value [amount], memo [desc], creation date
    the clock's current time, expiry the constant 3600.  Whatever response
    the node gives, the invoice returned has amount [amount], description
    [desc] and expiry 3600. *)
Theorem CreateInvoice_request_and_invoice ctx amount desc c :
  pool.Get (pool l) ctx = inr c ->
  let req := {| lnrpc.Value := amount;
                lnrpc.Memo := desc;
                lnrpc.CreationDate := time_Now_Unix w;
                lnrpc.Expiry := 3600;
                lnrpc.Unnamed := lnrpc_InvoiceOthers_zero |} in
  requests (trace (CreateInvoice w l ctx amount desc)) = [(c, ReqAddInvoice req)] /\
  forall resp,
    stub.AddInvoice (NewLightningClient w (pool.ClientConn c)) ctx req = inr resp ->
    exists invoice,
      outcome (CreateInvoice w l ctx amount desc) = Return invoice /\
      models.InvoiceAmount invoice = amount /\
      models.Description invoice = desc /\
      models.InvoiceExpiry invoice = 3600.
Proof.
  intros Eget req. subst req. unfold CreateInvoice.
  rewrite (Backend_Client_acquires ctx c Eget).
  unfold Client_Close, call, Debug, time_Now_then_Unix, lndDefaultInvoiceExpiry.
  cbn. split.
  - split_on_stub; reflexivity.
  - intros resp Ecall. rewrite Ecall. cbn.
    eexists. repeat split; reflexivity.
Qed.

(** C4. With a connection from the pool, [SendPayment] of a request with
    destination [D], amount [A] and encoded string [S] hands the stub exactly
    one request, which holds [S] and nothing else.  Whatever response the
    node gives, the payment returned has destination [D] and amount [A]. *)
Theorem SendPayment_request_and_payment ctx D A S c :
  pool.Get (pool l) ctx = inr c ->
  let payreq := {| models.Destination := D; models.Amount := A; models.String := S |} in
  let req := {| lnrpc.PaymentRequest := S |} in
  requests (trace (SendPayment w l ctx (Some payreq))) = [(c, ReqSendPaymentSync req)] /\
  forall resp,
    stub.SendPaymentSync (NewLightningClient w (pool.ClientConn c)) ctx req = inr resp ->
    exists payment,
      outcome (SendPayment w l ctx (Some payreq)) = Return payment /\
      models.PaymentDestination payment = D /\
      models.PaymentAmount payment = A.
Proof.
  intros Eget payreq req. subst payreq req. unfold SendPayment.
  rewrite (Backend_Client_acquires ctx c Eget).
  unfold Client_Close, call, Debug, deref. cbn.
  split.
  - split_on_stub; reflexivity.
  - intros resp Ecall. rewrite Ecall. cbn.
    eexists. repeat split; reflexivity.
Qed.

(** C6. With a connection from the pool, [ListChannels] without options
    hands the stub a request whose four filter flags are false, and
    [ListChannels] with the active-only option alone a request whose active
    flag is true and whose three other flags are false. *)
Theorem ListChannels_filter_flags ctx c :
  pool.Get (pool l) ctx = inr c ->
  requests (trace (ListChannels w l ctx [])) =
    [(c, ReqListChannels {| lnrpc.ActiveOnly := false; lnrpc.InactiveOnly := false;
                            lnrpc.PublicOnly := false; lnrpc.PrivateOnly := false |})] /\
  requests (trace (ListChannels w l ctx [options.ActiveOnly])) =
    [(c, ReqListChannels {| lnrpc.ActiveOnly := true; lnrpc.InactiveOnly := false;
                            lnrpc.PublicOnly := false; lnrpc.PrivateOnly := false |})].
Proof.
  intros Eget. unfold ListChannels.
  rewrite (Backend_Client_acquires ctx c Eget).
  unfold Client_Close, call, Debug. cbn.
  split;
    match goal with
    | |- context [or_return _ ?r] => destruct r; reflexivity
    end.
Qed.

(** C7, as the code has it.  For each of the seven unary operations, when the
    call through the stub fails with [e], the operation returns [e] wrapped
    by [errors.WithStack]: the wrapper keeps [e] as its cause and adds the
    stack recorded at the call site, whose innermost frame is the
    operation's method.  It adds no message and nothing of the arguments:
    its text is the text of [e]. *)
Theorem remote_error_wrapped_with_stack ctx call e :
  In e (failed_calls (trace (unary w l ctx call))) ->
  let site := {| errors.fn :=
                   ("github.com/edouardparis/lntop/network/backend/lnd.Backend."
                      ++ method_of call)%string;
                 errors.line := with_stack_line_of call |} in
  let wrapped := errors.withStack e (errors.callers (site :: runtime_Callers w)) in
  outcome (unary w l ctx call) = Fail wrapped /\
  errors.Cause wrapped = errors.Cause e /\
  errors.Error wrapped = errors.Error e.
Proof.
  destruct call as [ | | opt | amount desc | RHash | [p|] | payreq ];
    unfold_operation; cbn;
    split_on_pool l ctx; try split_on_stub; by_membership.
Qed.

(** *** The subscription *)

(** C5. With a connection from the pool and a stream that yields [M1], [M2]
    and then the error [E], [SubscribeInvoice] sends the translation of [M1]
    and then that of [M2] to the channel and returns [E] itself; it asks the
    pool once and opens the stream once.  Three iterations of fuel are
    enough. *)
Theorem SubscribeInvoice_two_then_error fuel ctx c cltInvoices M1 M2 E :
  pool.Get (pool l) ctx = inr c ->
  stub.SubscribeInvoices (NewLightningClient w (pool.ClientConn c)) ctx
    lnrpc.mkInvoiceSubscription = inr cltInvoices ->
  stub.Recv cltInvoices 0 = inr M1 ->
  stub.Recv cltInvoices 1 = inr M2 ->
  stub.Recv cltInvoices 2 = inl E ->
  (3 <= fuel)%nat ->
  outcome (SubscribeInvoice w l fuel ctx) = Fail E /\
  sends (trace (SubscribeInvoice w l fuel ctx)) =
    [lookupInvoiceProtoToInvoice M1; lookupInvoiceProtoToInvoice M2] /\
  trace (SubscribeInvoice w l fuel ctx) =
    [EvGet ctx (inr c);
     EvLog logging.LevelDebug "Client connection retrieved"
       [logging.String "target" (pool.Target c)];
     EvCall c ctx (ReqSubscribeInvoices lnrpc.mkInvoiceSubscription) None;
     EvRecv None; EvSend (lookupInvoiceProtoToInvoice M1);
     EvRecv None; EvSend (lookupInvoiceProtoToInvoice M2);
     EvRecv (Some E)].
Proof.
  intros Eget Eopen E0 E1 E2 Hfuel. unfold SubscribeInvoice.
  rewrite (Backend_Client_acquires ctx c Eget).
  unfold call. cbn. rewrite Eopen. cbn.
  rewrite (recv_loop_delivers cltInvoices E [M1; M2] fuel 0).
  - repeat split; reflexivity.
  - intros [|[|i]] m Hi; cbn in Hi.
    + injection Hi as <-. exact E0.
    + injection Hi as <-. exact E1.
    + destruct i; discriminate Hi.
  - exact E2.
  - cbn. lia.
Qed.

(** C8. Whatever the operation, one of the seven unary ones or the
    subscription, an error of the pool is what the operation returns, as it
    is, and the pool is asked once only. *)
Theorem pool_error_unchanged ctx err :
  (forall call,
     acquisition_failed err (trace (unary w l ctx call)) ->
     outcome (unary w l ctx call) = Fail err /\
     acquisitions (trace (unary w l ctx call)) = [inl err]) /\
  (forall fuel,
     acquisition_failed err (trace (SubscribeInvoice w l fuel ctx)) ->
     outcome (SubscribeInvoice w l fuel ctx) = Fail err /\
     acquisitions (trace (SubscribeInvoice w l fuel ctx)) = [inl err]).
Proof.
  split.
  - intros call.
    destruct call as [ | | opt | amount desc | RHash | [p|] | payreq ];
      unfold_operation; unfold acquisition_failed; cbn;
      split_on_pool l ctx; try split_on_stub; by_membership.
  - intros fuel. unfold acquisition_failed.
    destruct (pool.Get (pool l) ctx) as [err'|c] eqn:Eget; unfold SubscribeInvoice.
    + rewrite (Backend_Client_refused ctx err' Eget). by_membership.
    + rewrite (Backend_Client_acquires ctx c Eget). unfold call. cbn.
      split_on_stub; [by_membership|].
      intros [Hin|Hin]; [discriminate Hin|].
      exfalso. revert Hin. generalize 0%nat.
      induction fuel as [|fuel IH]; intros k; [intros []|].
      rewrite recv_loop_step.
      destruct (stub.Recv resp k); cbn; [intros []|apply IH].
Qed.

(** [SubscribeInvoice] has no [return nil]: it comes back with an error or
    not at all. *)
Lemma SubscribeInvoice_never_returns_nil fuel ctx :
  outcome (SubscribeInvoice w l fuel ctx) <> Return tt.
Proof.
  unfold SubscribeInvoice.
  destruct (pool.Get (pool l) ctx) as [err|c] eqn:Eget.
  - rewrite (Backend_Client_refused ctx err Eget). discriminate.
  - rewrite (Backend_Client_acquires ctx c Eget). unfold call. cbn.
    split_on_stub; [discriminate|].
    generalize 0%nat.
    induction fuel as [|fuel IH]; intros k; [discriminate|].
    rewrite recv_loop_step.
    destruct (stub.Recv resp k); cbn; [discriminate|apply IH].
Qed.

(** C9. [SubscribeInvoice] never closes the connection it took: whatever the
    pool, the node and the stream answer and however long the loop is
    followed, its trace holds no [Close]. *)
Theorem SubscribeInvoice_never_releases fuel ctx :
  closes (trace (SubscribeInvoice w l fuel ctx)) = [].
Proof.
  unfold SubscribeInvoice.
  destruct (pool.Get (pool l) ctx) as [err|c] eqn:Eget.
  - rewrite (Backend_Client_refused ctx err Eget). reflexivity.
  - rewrite (Backend_Client_acquires ctx c Eget). unfold call. cbn.
    split_on_stub; [reflexivity|].
    apply recv_loop_never_closes.
Qed.

(** C10. With a connection from the pool, if opening the invoice stream
    fails with [e], [SubscribeInvoice] returns [e] itself, without the
    wrapper of the unary operations, and sends nothing to the channel. *)
Theorem SubscribeInvoice_open_failure fuel ctx c e :
  pool.Get (pool l) ctx = inr c ->
  stub.SubscribeInvoices (NewLightningClient w (pool.ClientConn c)) ctx
    lnrpc.mkInvoiceSubscription = inl e ->
  outcome (SubscribeInvoice w l fuel ctx) = Fail e /\
  sends (trace (SubscribeInvoice w l fuel ctx)) = [].
Proof.
  intros Eget Eopen. unfold SubscribeInvoice.
  rewrite (Backend_Client_acquires ctx c Eget).
  unfold call. cbn. rewrite Eopen. split; reflexivity.
Qed.

(** *** More on the unary operations *)



(** Whatever a unary operation is called with and whatever the pool and the
    node answer, it closes exactly the connections the pool handed it: none
    when it got none, that one when it got one. *)
Theorem unary_closes_what_it_was_granted ctx call :
  closes (trace (unary w l ctx call)) = granted (trace (unary w l ctx call)).
Proof.
  destruct call as [ | | opt | amount desc | RHash | [p|] | payreq ];
    unfold_operation; cbn;
    split_on_pool l ctx; try split_on_stub; reflexivity.
Qed.


(** A unary operation makes up no error of its own: the error it returns is
    the pool's, as it is, or the error of its one call through the stub,
    under [errors.WithStack]. *)
Theorem unary_error_comes_from_pool_or_node ctx call err :
  outcome (unary w l ctx call) = Fail err ->
  acquisition_failed err (trace (unary w l ctx call)) \/
  exists e st,
    failed_calls (trace (unary w l ctx call)) = [e] /\
    err = errors.withStack e st.
Proof.
  destruct call as [ | | opt | amount desc | RHash | [p|] | payreq ];
    unfold_operation; unfold acquisition_failed; cbn;
    split_on_pool l ctx; try split_on_stub;
    intros Hout; try discriminate Hout;
    injection Hout as <-;
    solve [ left; left; reflexivity
          | right; eexists; eexists; split; reflexivity ].
Qed.

(** With a connection from the pool, [GetInvoice(RHash)] hands the stub one
    lookup request whose hash string is [RHash]; when the node answers, the
    operation returns the translation of that answer. *)
Theorem GetInvoice_request_and_invoice ctx RHash c :
  pool.Get (pool l) ctx = inr c ->
  let req := {| lnrpc.RHashStr := RHash |} in
  requests (trace (GetInvoice w l ctx RHash)) = [(c, ReqLookupInvoice req)] /\
  forall resp,
    stub.LookupInvoice (NewLightningClient w (pool.ClientConn c)) ctx req = inr resp ->
    outcome (GetInvoice w l ctx RHash) = Return (lookupInvoiceProtoToInvoice resp).
Proof.
  intros Eget req. subst req. unfold GetInvoice.
  rewrite (Backend_Client_acquires ctx c Eget).
  unfold Client_Close, call, Debug. cbn. split.
  - split_on_stub; reflexivity.
  - intros resp Ecall. rewrite Ecall. reflexivity.
Qed.

(** With a connection from the pool, [DecodePayReq(payreq)] hands the stub
    one request that holds [payreq]; when the node answers, the operation
    returns the translation of the answer together with [payreq] itself. *)
Theorem DecodePayReq_request_and_payreq ctx payreq c :
  pool.Get (pool l) ctx = inr c ->
  let req := {| lnrpc.PayReq := payreq |} in
  requests (trace (DecodePayReq w l ctx payreq)) = [(c, ReqDecodePayReq req)] /\
  forall resp,
    stub.DecodePayReq (NewLightningClient w (pool.ClientConn c)) ctx req = inr resp ->
    outcome (DecodePayReq w l ctx payreq) = Return (payreqProtoToPayReq resp payreq).
Proof.
  intros Eget req. subst req. unfold DecodePayReq.
  rewrite (Backend_Client_acquires ctx c Eget).
  unfold Client_Close, call, Info. cbn. split.
  - split_on_stub; reflexivity.
  - intros resp Ecall. rewrite Ecall. reflexivity.
Qed.

(** With a connection from the pool, [GetWalletBalance] and
    [GetChannelBalance] each hand the stub one empty request of their kind;
    when the node answers, each returns the translation of the answer. *)
Theorem balances_request_and_balance ctx c :
  pool.Get (pool l) ctx = inr c ->
  let clt := NewLightningClient w (pool.ClientConn c) in
  (requests (trace (GetWalletBalance w l ctx)) =
     [(c, ReqWalletBalance lnrpc.mkWalletBalanceRequest)] /\
   forall resp,
     stub.WalletBalance clt ctx lnrpc.mkWalletBalanceRequest = inr resp ->
     outcome (GetWalletBalance w l ctx) = Return (protoToWalletBalance resp)) /\
  (requests (trace (GetChannelBalance w l ctx)) =
     [(c, ReqChannelBalance lnrpc.mkChannelBalanceRequest)] /\
   forall resp,
     stub.ChannelBalance clt ctx lnrpc.mkChannelBalanceRequest = inr resp ->
     outcome (GetChannelBalance w l ctx) = Return (protoToChannelBalance resp)).
Proof.
  intros Eget clt. subst clt. unfold GetWalletBalance, GetChannelBalance.
  rewrite (Backend_Client_acquires ctx c Eget).
  unfold Client_Close, call, Debug. cbn. split; split.
  - split_on_stub; reflexivity.
  - intros resp Ecall. rewrite Ecall. reflexivity.
  - split_on_stub; reflexivity.
  - intros resp Ecall. rewrite Ecall. reflexivity.
Qed.

(** *** The channel listing *)

Lemma combine_seq_nth_error {A} (xs : list A) :
  forall k i,
    nth_error (combine (seq k (List.length xs)) xs) i =
    option_map (fun x => ((k + i)%nat, x)) (nth_error xs i).
Proof.
  induction xs as [|x xs IH]; intros k [|i]; cbn; try reflexivity.
  - rewrite Nat.add_0_r. reflexivity.
  - rewrite IH. replace (S k + i)%nat with (k + S i)%nat by lia. reflexivity.
Qed.

(** The log fields of a channel listing: one per channel, in the order of the
    channels, the one at index [i] under the key ["channel_<i>"]; none for an
    empty listing. *)
Theorem channel_fields_one_per_channel channels :
  List.length (channel_fields channels) = List.length channels /\
  forall i,
    nth_error (channel_fields channels) i =
    option_map (fun ch => logging.Object (channel_key i) (logging.OfChannel ch))
               (nth_error channels i).
Proof.
  unfold channel_fields. split.
  - rewrite length_map, length_combine, length_seq. apply Nat.min_id.
  - intros i. rewrite nth_error_map, combine_seq_nth_error.
    destruct (nth_error channels i); reflexivity.
Qed.

(** Two channels of one listing never share a log key. *)
Theorem channel_key_distinct i j :
  i <> j -> channel_key i <> channel_key j.
Proof.
  intros Hij Hkey. apply Hij. unfold channel_key in Hkey. cbn in Hkey.
  injection Hkey as Hdigits.
  apply Unsigned.to_uint_inj.
  pose proof (NilEmpty.usu (Nat.to_uint i)) as Hi.
  pose proof (NilEmpty.usu (Nat.to_uint j)) as Hj.
  rewrite Hdigits in Hi. rewrite Hi in Hj. injection Hj as Hj. exact Hj.
Qed.

(** With a connection from the pool and an answer of the node to the request
    it was sent, [ListChannels] returns every channel of the translated
    answer, whatever the options, and logs them all in one record. *)
Theorem ListChannels_returns_and_logs_every_channel ctx opt c req resp :
  pool.Get (pool l) ctx = inr c ->
  requests (trace (ListChannels w l ctx opt)) = [(c, ReqListChannels req)] ->
  stub.ListChannels (NewLightningClient w (pool.ClientConn c)) ctx req = inr resp ->
  outcome (ListChannels w l ctx opt) = Return (listChannelsProtoToChannels resp) /\
  In ("Channels retrieved"%string, channel_fields (listChannelsProtoToChannels resp))
     (logged (trace (ListChannels w l ctx opt))).
Proof.
  intros Eget. unfold ListChannels.
  rewrite (Backend_Client_acquires ctx c Eget).
  unfold Client_Close, call, Debug. cbn.
  split_on_stub; intros Hreq; injection Hreq as <-; intros Eresp;
    rewrite Ecall in Eresp; [discriminate Eresp|].
  injection Eresp as <-. split; [reflexivity|].
  right. right. left. reflexivity.
Qed.

(** *** More on the subscription *)

Lemma recv_loop_sends_nth_error cltInvoices :
  forall fuel k i inv,
    nth_error (sends (trace (recv_loop fuel cltInvoices k))) i = Some inv ->
    exists M, stub.Recv cltInvoices (k + i) = inr M /\
              inv = lookupInvoiceProtoToInvoice M.
Proof.
  induction fuel as [|fuel IH]; intros k i inv.
  - destruct i; discriminate.
  - rewrite recv_loop_step.
    destruct (stub.Recv cltInvoices k) as [err|M] eqn:Ek; cbn.
    + destruct i; discriminate.
    + destruct i as [|i]; cbn.
      * intros Hinv. injection Hinv as <-. exists M.
        rewrite Nat.add_0_r. split; [exact Ek | reflexivity].
      * intros Hinv. destruct (IH (S k) i inv Hinv) as (M' & HM' & ->).
        exists M'. replace (k + S i)%nat with (S k + i)%nat by lia.
        split; [exact HM' | reflexivity].
Qed.

Lemma recv_loop_sends_received cltInvoices :
  forall fuel k i M,
    (forall j, (j < i)%nat -> error_of (stub.Recv cltInvoices (k + j)) = None) ->
    stub.Recv cltInvoices (k + i) = inr M ->
    (i < fuel)%nat ->
    nth_error (sends (trace (recv_loop fuel cltInvoices k))) i =
      Some (lookupInvoiceProtoToInvoice M).
Proof.
  induction fuel as [|fuel IH]; intros k i M Hbefore Hi Hfuel; [lia|].
  rewrite recv_loop_step. destruct i as [|i].
  - rewrite Nat.add_0_r in Hi. rewrite Hi. reflexivity.
  - pose proof (Hbefore 0%nat ltac:(lia)) as H0. rewrite Nat.add_0_r in H0.
    destruct (stub.Recv cltInvoices k) as [err|M0]; [discriminate H0|].
    cbn. apply IH; [ | | lia].
    + intros j Hj. replace (S k + j)%nat with (k + S j)%nat by lia.
      apply Hbefore. lia.
    + replace (S k + i)%nat with (k + S i)%nat by lia. exact Hi.
Qed.

Lemma recv_loop_runs_on cltInvoices :
  (forall k, error_of (stub.Recv cltInvoices k) = None) ->
  forall fuel k,
    outcome (recv_loop fuel cltInvoices k) = Running /\
    List.length (sends (trace (recv_loop fuel cltInvoices k))) = fuel.
Proof.
  intros Hyields. induction fuel as [|fuel IH]; intros k.
  - split; reflexivity.
  - rewrite recv_loop_step. pose proof (Hyields k) as Hk.
    destruct (stub.Recv cltInvoices k) as [err|M]; [discriminate Hk|].
    destruct (IH (S k)) as [Hout Hlen]. cbn. split; [exact Hout|].
    f_equal. exact Hlen.
Qed.

Lemma recv_loop_error cltInvoices :
  forall fuel k err,
    outcome (recv_loop fuel cltInvoices k) = Fail err ->
    recv_errors (trace (recv_loop fuel cltInvoices k)) = [err].
Proof.
  induction fuel as [|fuel IH]; intros k err; [discriminate|].
  rewrite recv_loop_step.
  destruct (stub.Recv cltInvoices k) as [err'|M]; cbn.
  - intros Hout. injection Hout as <-. reflexivity.
  - apply IH.
Qed.

Lemma recv_loop_asks_nothing cltInvoices :
  forall fuel k,
    acquisitions (trace (recv_loop fuel cltInvoices k)) = [] /\
    requests (trace (recv_loop fuel cltInvoices k)) = [] /\
    failed_calls (trace (recv_loop fuel cltInvoices k)) = [].
Proof.
  induction fuel as [|fuel IH]; intros k.
  - repeat split; reflexivity.
  - rewrite recv_loop_step.
    destruct (stub.Recv cltInvoices k); cbn; [repeat split; reflexivity | apply IH].
Qed.

(** Unfolds [SubscribeInvoice] on a pool that hands out [c]. *)
Ltac subscribe_with c Eget :=
  unfold SubscribeInvoice;
  rewrite (Backend_Client_acquires _ c Eget);
  unfold call; cbn.

(** With a connection from the pool and a stream that yields the messages
    [msgs], however many, and then the error [E], [SubscribeInvoice] sends
    the translation of each message, in the order of the stream, and returns
    [E]; with no message at all it sends nothing and returns [E]. *)
Theorem SubscribeInvoice_delivers_all_then_fails fuel ctx c cltInvoices msgs E :
  pool.Get (pool l) ctx = inr c ->
  stub.SubscribeInvoices (NewLightningClient w (pool.ClientConn c)) ctx
    lnrpc.mkInvoiceSubscription = inr cltInvoices ->
  (forall i M, nth_error msgs i = Some M -> stub.Recv cltInvoices i = inr M) ->
  stub.Recv cltInvoices (List.length msgs) = inl E ->
  (List.length msgs < fuel)%nat ->
  outcome (SubscribeInvoice w l fuel ctx) = Fail E /\
  sends (trace (SubscribeInvoice w l fuel ctx)) = map lookupInvoiceProtoToInvoice msgs.
Proof.
  intros Eget Eopen Hmsgs Hend Hfuel. subscribe_with c Eget. rewrite Eopen. cbn.
  rewrite (recv_loop_delivers cltInvoices E msgs fuel 0 Hmsgs Hend Hfuel).
  split; [reflexivity|].
  unfold trace. cbn [snd]. rewrite flat_map_app. cbn. rewrite app_nil_r. clear.
  induction msgs as [|M msgs IH]; cbn; [reflexivity | f_equal; exact IH].
Qed.

(** With a connection from the pool and the stream open, whatever the stream
    yields and however long the loop is followed, the model sent in position
    [i] is the translation of the message that call number [i] of [Recv]
    returned: nothing is sent twice, out of order or without having been
    received. *)
Theorem SubscribeInvoice_sends_in_stream_order fuel ctx c cltInvoices i inv :
  pool.Get (pool l) ctx = inr c ->
  stub.SubscribeInvoices (NewLightningClient w (pool.ClientConn c)) ctx
    lnrpc.mkInvoiceSubscription = inr cltInvoices ->
  nth_error (sends (trace (SubscribeInvoice w l fuel ctx))) i = Some inv ->
  exists M, stub.Recv cltInvoices i = inr M /\ inv = lookupInvoiceProtoToInvoice M.
Proof.
  intros Eget Eopen. subscribe_with c Eget. rewrite Eopen. cbn.
  apply (recv_loop_sends_nth_error cltInvoices fuel 0 i inv).
Qed.

(** With a connection from the pool and the stream open, a message received
    before any receive error is sent: if the calls of [Recv] before number
    [i] return no error and call number [i] returns [M], the translation of
    [M] is what is sent in position [i], once the loop is followed that far. *)
Theorem SubscribeInvoice_drops_no_message fuel ctx c cltInvoices i M :
  pool.Get (pool l) ctx = inr c ->
  stub.SubscribeInvoices (NewLightningClient w (pool.ClientConn c)) ctx
    lnrpc.mkInvoiceSubscription = inr cltInvoices ->
  (forall j, (j < i)%nat -> error_of (stub.Recv cltInvoices j) = None) ->
  stub.Recv cltInvoices i = inr M ->
  (i < fuel)%nat ->
  nth_error (sends (trace (SubscribeInvoice w l fuel ctx))) i =
    Some (lookupInvoiceProtoToInvoice M).
Proof.
  intros Eget Eopen Hbefore Hi Hfuel. subscribe_with c Eget. rewrite Eopen. cbn.
  apply (recv_loop_sends_received cltInvoices fuel 0 i M Hbefore Hi Hfuel).
Qed.

(** With a connection from the pool and a stream that never returns an
    error, [SubscribeInvoice] never returns: however long the loop is
    followed it is still running, and it has sent one model per iteration. *)
Theorem SubscribeInvoice_runs_while_stream_yields fuel ctx c cltInvoices :
  pool.Get (pool l) ctx = inr c ->
  stub.SubscribeInvoices (NewLightningClient w (pool.ClientConn c)) ctx
    lnrpc.mkInvoiceSubscription = inr cltInvoices ->
  (forall k, error_of (stub.Recv cltInvoices k) = None) ->
  outcome (SubscribeInvoice w l fuel ctx) = Running /\
  List.length (sends (trace (SubscribeInvoice w l fuel ctx))) = fuel.
Proof.
  intros Eget Eopen Hyields. subscribe_with c Eget. rewrite Eopen. cbn.
  apply (recv_loop_runs_on cltInvoices Hyields fuel 0).
Qed.

(** The error [SubscribeInvoice] returns is, as it is and never wrapped, the
    error of the pool, or the error of opening the stream, or the error of
    the last [Recv]. *)
Theorem SubscribeInvoice_error_comes_unwrapped fuel ctx err :
  outcome (SubscribeInvoice w l fuel ctx) = Fail err ->
  acquisition_failed err (trace (SubscribeInvoice w l fuel ctx)) \/
  failed_calls (trace (SubscribeInvoice w l fuel ctx)) = [err] \/
  recv_errors (trace (SubscribeInvoice w l fuel ctx)) = [err].
Proof.
  destruct (pool.Get (pool l) ctx) as [err'|c] eqn:Eget.
  - unfold SubscribeInvoice. rewrite (Backend_Client_refused ctx err' Eget). cbn.
    intros Hout. injection Hout as <-. left. left. reflexivity.
  - subscribe_with c Eget. split_on_stub.
    + intros Hout. injection Hout as <-. right. left. reflexivity.
    + intros Hout. right. right.
      apply (recv_loop_error resp fuel 0 err Hout).
Qed.

(** Whatever happens, [SubscribeInvoice] asks the pool once and opens at most
    one stream: once on the connection it got, never without one.  It does
    not acquire or subscribe again after an error. *)
Theorem SubscribeInvoice_asks_once_opens_once fuel ctx :
  acquisitions (trace (SubscribeInvoice w l fuel ctx)) = [pool.Get (pool l) ctx] /\
  requests (trace (SubscribeInvoice w l fuel ctx)) =
    match pool.Get (pool l) ctx with
    | inr c => [(c, ReqSubscribeInvoices lnrpc.mkInvoiceSubscription)]
    | inl _ => []
    end.
Proof.
  destruct (pool.Get (pool l) ctx) as [err'|c] eqn:Eget.
  - unfold SubscribeInvoice. rewrite (Backend_Client_refused ctx err' Eget).
    split; reflexivity.
  - subscribe_with c Eget. split_on_stub; [split; reflexivity|].
    destruct (recv_loop_asks_nothing resp fuel 0) as (Hacq & Hreq & _).
    unfold acquisitions, requests in Hacq, Hreq.
    rewrite Hacq, Hreq. split; reflexivity.
Qed.

(** Lookup and subscription agree: an invoice message the node returns to
    [GetInvoice] and also delivers as message number [i] of the stream gives
    the same model from [GetInvoice] and in position [i] of the channel. *)
Theorem GetInvoice_agrees_with_subscription fuel ctx c cltInvoices RHash i M :
  pool.Get (pool l) ctx = inr c ->
  stub.LookupInvoice (NewLightningClient w (pool.ClientConn c)) ctx
    {| lnrpc.RHashStr := RHash |} = inr M ->
  stub.SubscribeInvoices (NewLightningClient w (pool.ClientConn c)) ctx
    lnrpc.mkInvoiceSubscription = inr cltInvoices ->
  (forall j, (j < i)%nat -> error_of (stub.Recv cltInvoices j) = None) ->
  stub.Recv cltInvoices i = inr M ->
  (i < fuel)%nat ->
  exists inv,
    outcome (GetInvoice w l ctx RHash) = Return inv /\
    nth_error (sends (trace (SubscribeInvoice w l fuel ctx))) i = Some inv.
Proof.
  intros Eget Elookup Eopen Hbefore Hi Hfuel.
  exists (lookupInvoiceProtoToInvoice M). split.
  - unfold GetInvoice. rewrite (Backend_Client_acquires ctx c Eget).
    unfold Client_Close, call, Debug. cbn. rewrite Elookup. reflexivity.
  - subscribe_with c Eget. rewrite Eopen. cbn.
    apply (recv_loop_sends_received cltInvoices fuel 0 i M Hbefore Hi Hfuel).
Qed.

(** *** What [Close] and [Target] return *)

(** What a unary operation returns does not depend on what [Close()] returns
    nor on the connection's target: two backends whose pools hand out
    connections over the same gRPC connection give the same outcome.  An
    error of [Close()] is dropped. *)
Theorem unary_outcome_ignores_Close_and_Target l' ctx call c c' :
  pool.Get (pool l) ctx = inr c ->
  pool.Get (pool l') ctx = inr c' ->
  pool.ClientConn c = pool.ClientConn c' ->
  outcome (unary w l ctx call) = outcome (unary w l' ctx call).
Proof.
  intros Eget Eget' Hconn.
  destruct c as [cc target close], c' as [cc' target' close'].
  cbn in Hconn. subst cc'.
  destruct call as [ | | opt | amount desc | RHash | [p|] | payreq ];
    unfold_operation; rewrite Eget, Eget'; cbn;
    try split_on_stub; reflexivity.
Qed.

End Properties.

(* ================================================================== *)
(** ** Properties of a caller's run *)

Section Callers.
Import lnd.
Local Open Scope list_scope.
Context `{X : Externals}.

(** Over any run of unary calls, against whatever backends and worlds, the
    connections closed are the connections handed out, in the same order:
    the unary operations leave no connection behind and close none twice. *)
Theorem session_closes_what_it_was_granted steps :
  closes (session steps) = granted (session steps).
Proof.
  unfold session, closes, granted.
  induction steps as [|[w l ctx op] steps IH]; [reflexivity|].
  cbn [flat_map step_world step_backend step_ctx step_call].
  rewrite !flat_map_app, IH. f_equal. clear IH.
  destruct op as [ | | opt | amount desc | RHash | [p|] | payreq ];
    unfold unary, tagged, GetWalletBalance, GetChannelBalance, ListChannels,
      CreateInvoice, GetInvoice, SendPayment, DecodePayReq,
      Backend_Client, Client_Close, call, Debug, Info, time_Now_then_Unix, deref;
    cbn;
    destruct (pool.Get (pool l) ctx) as [err|c]; cbn;
    try match goal with
        | |- context [or_return _ ?r] => destruct r; cbn
        end;
    reflexivity.
Qed.

End Callers.

(* ================================================================== *)
(** ** The properties on the concrete world *)

Section OnTheSample.
Import lnd sample.
Local Open Scope list_scope.
#[local] Existing Instance externals.

(** Wallet balance with the node up (success path) and invoice lookup with
    the node down (remote-error path): one [Close] of [conn7] each. *)
Lemma unary_release_exactly_once_witness :
  (acquired conn7 (trace (unary world_up backend tt CallGetWalletBalance)) /\
   closes (trace (unary world_up backend tt CallGetWalletBalance)) = [conn7] /\
   returned (outcome (unary world_up backend tt CallGetWalletBalance))) /\
  (acquired conn7 (trace (unary world_down backend tt (CallGetInvoice "aa"))) /\
   closes (trace (unary world_down backend tt (CallGetInvoice "aa"))) = [conn7] /\
   returned (outcome (unary world_down backend tt (CallGetInvoice "aa")))).
Proof.
  split; (split; [vm_compute; left; reflexivity|]).
  - apply (unary_release_exactly_once world_up backend tt CallGetWalletBalance conn7).
    vm_compute; left; reflexivity.
  - apply (unary_release_exactly_once world_down backend tt (CallGetInvoice "aa") conn7).
    vm_compute; left; reflexivity.
Defined.

Lemma unary_refused_no_call_no_release_witness :
  acquisition_failed exhausted
    (trace (unary world_up backend_exhausted tt (CallDecodePayReq "lnbc1u"))) /\
  outcome (unary world_up backend_exhausted tt (CallDecodePayReq "lnbc1u")) = Fail exhausted /\
  requests (trace (unary world_up backend_exhausted tt (CallDecodePayReq "lnbc1u"))) = [] /\
  closes (trace (unary world_up backend_exhausted tt (CallDecodePayReq "lnbc1u"))) = [].
Proof.
  split; [vm_compute; left; reflexivity|].
  apply (unary_refused_no_call_no_release world_up backend_exhausted tt
           (CallDecodePayReq "lnbc1u") exhausted).
  vm_compute; left; reflexivity.
Defined.

(** [CreateInvoice(50000, "coffee")]: the node answers ["lnbc1"], which
    echoes nothing of the request. *)
Lemma CreateInvoice_request_and_invoice_witness :
  requests (trace (CreateInvoice world_up backend tt 50000 "coffee")) =
    [(conn7, ReqAddInvoice {| lnrpc.Value := 50000; lnrpc.Memo := "coffee";
                              lnrpc.CreationDate := 1700000000;
                              lnrpc.Expiry := 3600; lnrpc.Unnamed := false |})] /\
  exists invoice,
    outcome (CreateInvoice world_up backend tt 50000 "coffee") = Return invoice /\
    models.InvoiceAmount invoice = 50000 /\
    models.Description invoice = "coffee" /\
    models.InvoiceExpiry invoice = 3600.
Proof.
  destruct (CreateInvoice_request_and_invoice world_up backend tt 50000 "coffee" conn7
              eq_refl) as [Hreq Hinv].
  split; [exact Hreq|].
  exact (Hinv "lnbc1" eq_refl).
Defined.

Lemma SendPayment_request_and_payment_witness :
  requests (trace (SendPayment world_up backend tt (Some payreq100))) =
    [(conn7, ReqSendPaymentSync {| lnrpc.PaymentRequest := "lnbc1u" |})] /\
  exists payment,
    outcome (SendPayment world_up backend tt (Some payreq100)) = Return payment /\
    models.PaymentDestination payment = "02abc" /\
    models.PaymentAmount payment = 100.
Proof.
  destruct (SendPayment_request_and_payment world_up backend tt "02abc" 100 "lnbc1u" conn7
              eq_refl) as [Hreq Hpay].
  split; [exact Hreq|].
  exact (Hpay "" eq_refl).
Defined.

Lemma ListChannels_filter_flags_witness :
  requests (trace (ListChannels world_up backend tt [])) =
    [(conn7, ReqListChannels {| lnrpc.ActiveOnly := false; lnrpc.InactiveOnly := false;
                                lnrpc.PublicOnly := false; lnrpc.PrivateOnly := false |})] /\
  requests (trace (ListChannels world_up backend tt [options.ActiveOnly])) =
    [(conn7, ReqListChannels {| lnrpc.ActiveOnly := true; lnrpc.InactiveOnly := false;
                                lnrpc.PublicOnly := false; lnrpc.PrivateOnly := false |})].
Proof.
  exact (ListChannels_filter_flags world_up backend tt conn7 eq_refl).
Defined.

(** The stream [two_invoices] yields [invoice1], [invoice2], then [eof]. *)
Lemma SubscribeInvoice_two_then_error_witness :
  outcome (SubscribeInvoice world_up backend 3 tt) = Fail eof /\
  sends (trace (SubscribeInvoice world_up backend 3 tt)) =
    [lookupInvoiceProtoToInvoice invoice1; lookupInvoiceProtoToInvoice invoice2] /\
  trace (SubscribeInvoice world_up backend 3 tt) =
    [EvGet tt (inr conn7);
     EvLog logging.LevelDebug "Client connection retrieved"
       [logging.String "target" "127.0.0.1:10009"];
     EvCall conn7 tt (ReqSubscribeInvoices lnrpc.mkInvoiceSubscription) None;
     EvRecv None; EvSend (lookupInvoiceProtoToInvoice invoice1);
     EvRecv None; EvSend (lookupInvoiceProtoToInvoice invoice2);
     EvRecv (Some eof)].
Proof.
  apply (SubscribeInvoice_two_then_error world_up backend 3 tt conn7 two_invoices
           invoice1 invoice2 eof);
    reflexivity.
Defined.

Lemma remote_error_wrapped_with_stack_witness :
  In unavailable (failed_calls (trace (unary world_down backend tt (CallGetInvoice "aa")))) /\
  outcome (unary world_down backend tt (CallGetInvoice "aa")) =
    Fail (errors.withStack unavailable
            [{| errors.fn :=
                  "github.com/edouardparis/lntop/network/backend/lnd.Backend.GetInvoice";
                errors.line := 205 |};
             main_frame]) /\
  errors.Cause
    (errors.withStack unavailable
       [{| errors.fn :=
             "github.com/edouardparis/lntop/network/backend/lnd.Backend.GetInvoice";
           errors.line := 205 |};
        main_frame]) = unavailable /\
  errors.Error
    (errors.withStack unavailable
       [{| errors.fn :=
             "github.com/edouardparis/lntop/network/backend/lnd.Backend.GetInvoice";
           errors.line := 205 |};
        main_frame]) = "rpc error: code = Unavailable"%string.
Proof.
  split; [vm_compute; left; reflexivity|].
  apply (remote_error_wrapped_with_stack world_down backend tt (CallGetInvoice "aa")
           unavailable).
  vm_compute; left; reflexivity.
Defined.

(** C7, as the spec has it, fails.  With the node down, [GetInvoice] returns
    the same error for the hashes ["aa"] and ["bb"]: the stack of
    [errors.WithStack] records where the call was made, not with what, so
    nothing can read the key argument back from the error. *)
Lemma remote_error_lacks_key_argument :
  outcome (GetInvoice world_down backend tt "aa") =
    Fail (errors.withStack unavailable
            [{| errors.fn :=
                  "github.com/edouardparis/lntop/network/backend/lnd.Backend.GetInvoice";
                errors.line := 205 |};
             main_frame]) /\
  outcome (GetInvoice world_down backend tt "bb") =
    outcome (GetInvoice world_down backend tt "aa") /\
  ~ (exists key_argument : errors.error -> string,
       forall RHash err,
         outcome (GetInvoice world_down backend tt RHash) = Fail err ->
         key_argument err = RHash).
Proof.
  split; [reflexivity|]. split; [reflexivity|].
  intros [key_argument Hkey].
  pose proof (Hkey "aa"%string _ eq_refl) as Haa.
  pose proof (Hkey "bb"%string _ eq_refl) as Hbb.
  rewrite Haa in Hbb. discriminate Hbb.
Qed.

Lemma pool_error_unchanged_witness :
  (acquisition_failed exhausted
     (trace (unary world_up backend_exhausted tt CallGetChannelBalance)) /\
   outcome (unary world_up backend_exhausted tt CallGetChannelBalance) = Fail exhausted /\
   acquisitions (trace (unary world_up backend_exhausted tt CallGetChannelBalance)) =
     [inl exhausted]) /\
  (acquisition_failed exhausted (trace (SubscribeInvoice world_up backend_exhausted 5 tt)) /\
   outcome (SubscribeInvoice world_up backend_exhausted 5 tt) = Fail exhausted /\
   acquisitions (trace (SubscribeInvoice world_up backend_exhausted 5 tt)) =
     [inl exhausted]).
Proof.
  split; (split; [vm_compute; left; reflexivity|]).
  - apply (proj1 (pool_error_unchanged world_up backend_exhausted tt exhausted)
             CallGetChannelBalance).
    vm_compute; left; reflexivity.
  - apply (proj2 (pool_error_unchanged world_up backend_exhausted tt exhausted) 5%nat).
    vm_compute; left; reflexivity.
Defined.

Lemma SubscribeInvoice_open_failure_witness :
  outcome (SubscribeInvoice world_down backend 5 tt) = Fail unavailable /\
  sends (trace (SubscribeInvoice world_down backend 5 tt)) = [].
Proof.
  exact (SubscribeInvoice_open_failure world_down backend 5 tt conn7 unavailable
           eq_refl eq_refl).
Defined.

(** *** More of the unary operations on the sample *)


Lemma unary_error_comes_from_pool_or_node_witness :
  (acquisition_failed exhausted
     (trace (unary world_up backend_exhausted tt CallGetWalletBalance)) \/
   exists e st,
     failed_calls (trace (unary world_up backend_exhausted tt CallGetWalletBalance)) = [e] /\
     exhausted = errors.withStack e st) /\
  (acquisition_failed
     (errors.withStack unavailable
        (errors.callers
           [{| errors.fn :=
                 "github.com/edouardparis/lntop/network/backend/lnd.Backend.DecodePayReq";
               errors.line := 251 |};
            main_frame]))
     (trace (unary world_down backend tt (CallDecodePayReq "lnbc1u"))) \/
   exists e st,
     failed_calls (trace (unary world_down backend tt (CallDecodePayReq "lnbc1u"))) = [e] /\
     errors.withStack unavailable
       (errors.callers
          [{| errors.fn :=
                "github.com/edouardparis/lntop/network/backend/lnd.Backend.DecodePayReq";
              errors.line := 251 |};
           main_frame]) = errors.withStack e st).
Proof.
  split.
  - apply (unary_error_comes_from_pool_or_node world_up backend_exhausted tt
             CallGetWalletBalance exhausted).
    reflexivity.
  - apply (unary_error_comes_from_pool_or_node world_down backend tt
             (CallDecodePayReq "lnbc1u")).
    reflexivity.
Defined.

Lemma unary_asks_pool_once_witness :
  CallSendPayment (Some payreq100) <> CallSendPayment None /\
  acquisitions (trace (unary world_down backend tt (CallSendPayment (Some payreq100)))) =
    [inr conn7].
Proof.
  assert (Hcall : CallSendPayment (Some payreq100) <> CallSendPayment None)
    by discriminate.
  split; [exact Hcall|].
  exact (unary_asks_pool_once world_down backend tt (CallSendPayment (Some payreq100))
           Hcall).
Defined.

Lemma GetInvoice_request_and_invoice_witness :
  requests (trace (GetInvoice world_up backend tt "aa")) =
    [(conn7, ReqLookupInvoice {| lnrpc.RHashStr := "aa" |})] /\
  outcome (GetInvoice world_up backend tt "aa") =
    Return (lookupInvoiceProtoToInvoice invoice1).
Proof.
  destruct (GetInvoice_request_and_invoice world_up backend tt "aa" conn7 eq_refl)
    as [Hreq Hinv].
  split; [exact Hreq|].
  exact (Hinv invoice1 eq_refl).
Defined.

Lemma DecodePayReq_request_and_payreq_witness :
  requests (trace (DecodePayReq world_up backend tt "lnbc1u")) =
    [(conn7, ReqDecodePayReq {| lnrpc.PayReq := "lnbc1u" |})] /\
  outcome (DecodePayReq world_up backend tt "lnbc1u") = Return payreq100.
Proof.
  destruct (DecodePayReq_request_and_payreq world_up backend tt "lnbc1u" conn7 eq_refl)
    as [Hreq Hpay].
  split; [exact Hreq|].
  exact (Hpay ("02abc"%string, 100) eq_refl).
Defined.

Lemma balances_request_and_balance_witness :
  (requests (trace (GetWalletBalance world_up backend tt)) =
     [(conn7, ReqWalletBalance lnrpc.mkWalletBalanceRequest)] /\
   outcome (GetWalletBalance world_up backend tt) = Return 1000) /\
  (requests (trace (GetChannelBalance world_up backend tt)) =
     [(conn7, ReqChannelBalance lnrpc.mkChannelBalanceRequest)] /\
   outcome (GetChannelBalance world_up backend tt) = Return 400).
Proof.
  destruct (balances_request_and_balance world_up backend tt conn7 eq_refl)
    as [[Hwreq Hwallet] [Hcreq Hchannel]].
  split; (split; [assumption|]).
  - exact (Hwallet 1000 eq_refl).
  - exact (Hchannel 400 eq_refl).
Defined.

Lemma channel_key_distinct_witness :
  9%nat <> 10%nat /\ channel_key 9 <> channel_key 10.
Proof.
  assert (Hij : 9%nat <> 10%nat) by discriminate.
  split; [exact Hij|].
  exact (channel_key_distinct 9 10 Hij).
Defined.

Lemma ListChannels_returns_and_logs_every_channel_witness :
  outcome (ListChannels world_up backend tt [options.PrivateOnly]) = Return [250; 150] /\
  In ("Channels retrieved"%string,
      [logging.Object "channel_0" (logging.OfChannel 250);
       logging.Object "channel_1" (logging.OfChannel 150)])
     (logged (trace (ListChannels world_up backend tt [options.PrivateOnly]))).
Proof.
  exact (ListChannels_returns_and_logs_every_channel world_up backend tt
           [options.PrivateOnly] conn7
           {| lnrpc.ActiveOnly := false; lnrpc.InactiveOnly := false;
              lnrpc.PublicOnly := false; lnrpc.PrivateOnly := true |}
           [250; 150] eq_refl eq_refl eq_refl).
Defined.

Lemma unary_outcome_ignores_Close_and_Target_witness :
  outcome (unary world_up backend tt CallGetWalletBalance) =
  outcome (unary world_up backend_failing_close tt CallGetWalletBalance).
Proof.
  exact (unary_outcome_ignores_Close_and_Target world_up backend backend_failing_close tt
           CallGetWalletBalance conn7 conn7_failing_close eq_refl eq_refl eq_refl).
Defined.

(** *** More of the subscription on the sample *)

Lemma SubscribeInvoice_delivers_all_then_fails_witness :
  outcome (SubscribeInvoice world_up backend 3 tt) = Fail eof /\
  sends (trace (SubscribeInvoice world_up backend 3 tt)) =
    map lookupInvoiceProtoToInvoice [invoice1; invoice2].
Proof.
  apply (SubscribeInvoice_delivers_all_then_fails world_up backend 3 tt conn7
           two_invoices [invoice1; invoice2] eof eq_refl eq_refl).
  - intros [|[|i]] M Hi; cbn in Hi.
    + injection Hi as <-. reflexivity.
    + injection Hi as <-. reflexivity.
    + destruct i; discriminate Hi.
  - reflexivity.
  - cbn. lia.
Defined.

Lemma SubscribeInvoice_sends_in_stream_order_witness :
  nth_error (sends (trace (SubscribeInvoice world_up backend 5 tt))) 1 =
    Some (lookupInvoiceProtoToInvoice invoice2) /\
  exists M, stub.Recv two_invoices 1 = inr M /\
            lookupInvoiceProtoToInvoice invoice2 = lookupInvoiceProtoToInvoice M.
Proof.
  split; [reflexivity|].
  exact (SubscribeInvoice_sends_in_stream_order world_up backend 5 tt conn7 two_invoices
           1 (lookupInvoiceProtoToInvoice invoice2) eq_refl eq_refl eq_refl).
Defined.

Lemma SubscribeInvoice_drops_no_message_witness :
  nth_error (sends (trace (SubscribeInvoice world_up backend 2 tt))) 1 =
    Some (lookupInvoiceProtoToInvoice invoice2).
Proof.
  apply (SubscribeInvoice_drops_no_message world_up backend 2 tt conn7 two_invoices
           1 invoice2 eq_refl eq_refl).
  - intros [|j] Hj; [reflexivity | lia].
  - reflexivity.
  - lia.
Defined.

Lemma SubscribeInvoice_runs_while_stream_yields_witness :
  outcome (SubscribeInvoice world_streaming backend 40 tt) = Running /\
  List.length (sends (trace (SubscribeInvoice world_streaming backend 40 tt))) = 40%nat.
Proof.
  apply (SubscribeInvoice_runs_while_stream_yields world_streaming backend 40 tt conn7
           endless_invoices eq_refl eq_refl).
  intros k. reflexivity.
Defined.

Lemma SubscribeInvoice_error_comes_unwrapped_witness :
  acquisition_failed eof (trace (SubscribeInvoice world_up backend 3 tt)) \/
  failed_calls (trace (SubscribeInvoice world_up backend 3 tt)) = [eof] \/
  recv_errors (trace (SubscribeInvoice world_up backend 3 tt)) = [eof].
Proof.
  apply (SubscribeInvoice_error_comes_unwrapped world_up backend 3 tt eof).
  reflexivity.
Defined.

Lemma GetInvoice_agrees_with_subscription_witness :
  exists inv,
    outcome (GetInvoice world_up backend tt "aa") = Return inv /\
    nth_error (sends (trace (SubscribeInvoice world_up backend 1 tt))) 0 = Some inv.
Proof.
  apply (GetInvoice_agrees_with_subscription world_up backend 1 tt conn7 two_invoices
           "aa" 0 invoice1 eq_refl eq_refl eq_refl).
  - intros j Hj. lia.
  - reflexivity.
  - lia.
Defined.

End OnTheSample.
